(** * chess_analyzer.py: session state machine and move-quality policy

    A shallow embedding of [src/chess_analyzer.py], a Streamlit page that
    lets a user play chess moves, asks a Stockfish process for evaluations
    and keeps a move-quality log in [st.session_state].

    Streamlit re-executes the whole script, top to bottom, on every user
    interaction; the session state outlives a run, the engine process is
    started anew by each run (line 14). One run is modelled by [script];
    the chess rules library and the engine are external collaborators and
    enter as interfaces ([Chess], [Stockfish]). *)

From Stdlib Require Import ZArith List String Ascii Bool Lia DecimalString.
Open Scope string_scope.
Import ListNotations.
Open Scope list_scope.
Open Scope Z_scope.

Set Implicit Arguments.

(** ** Evaluations, as returned by [stockfish.get_evaluation()]

    The engine answers with a dict [{"type": "cp" | "mate", "value": int}]. *)

Inductive EvalType : Type := cp | mate.

Definition EvalType_eqb (a b : EvalType) : bool :=
  match a, b with
  | cp, cp | mate, mate => true
  | _, _ => false
  end.

Record Evaluation : Type := mkEval { type_ : EvalType; value : Z }.

(** ** Move quality (lines 99-112) *)

Definition move_quality (score1 score2 : Evaluation) : string :=
  if negb (EvalType_eqb (type_ score1) (type_ score2)) then "Unclear ❓"
  else
    let diff := Z.abs (value score1 - value score2) in
    if diff <? 30 then "Excellent ✅"
    else if diff <? 80 then "Good 👍"
    else if diff <? 150 then "Inaccuracy ⚠️"
    else if diff <? 300 then "Mistake ❌"
    else "Blunder 💥".

(** ** Python values used by the script *)

(** An exception, identified by its message [str(e)]. *)
Definition Exception : Type := string.

(** Outcome of a call that may raise. *)
Definition Result (A : Type) : Type := (Exception + A)%type.

(** [list.pop()]: removes the last item, [IndexError] on an empty list. *)
Definition list_pop {A : Type} (l : list A) : Result (list A) :=
  match l with
  | [] => inl "pop from empty list"
  | _ :: _ => inr (removelast l)
  end.

(** ASCII code points for which [str.isspace] holds. *)
Definition isspace (c : ascii) : bool :=
  let n := nat_of_ascii c in
  ((9 <=? n) && (n <=? 13) || (28 <=? n) && (n <=? 32))%nat.

Fixpoint lstrip_chars (l : list ascii) : list ascii :=
  match l with
  | c :: l' => if isspace c then lstrip_chars l' else l
  | [] => []
  end.

(** [str.strip()] on a byte string (only ASCII white space is modelled). *)
Definition strip (s : string) : string :=
  string_of_list_ascii
    (rev (lstrip_chars (rev (lstrip_chars (list_ascii_of_string s))))).

(** ** The rules library (python-chess)

    [chess.Board()] starts from the standard layout and the script only ever
    pushes, pops and resets, so a board is identified by its move stack. *)

Record Board (Move : Type) : Type := mkBoard { move_stack : list Move }.

Arguments mkBoard {Move} _.
Arguments move_stack {Move} _.

(** [chess.Board()], also the effect of [board.reset()]. *)
Definition Board_new {Move : Type} : Board Move := mkBoard [].

Definition push {Move : Type} (b : Board Move) (m : Move) : Board Move :=
  mkBoard (move_stack b ++ [m]).

(** [board.pop()] restores the previous position; [IndexError] when no move
    was made. *)
Definition pop {Move : Type} (b : Board Move) : Result (Board Move) :=
  match list_pop (move_stack b) with
  | inl e => inl e
  | inr l => inr (mkBoard l)
  end.

(** [board.peek() if board.move_stack else None] *)
Definition peek {Move : Type} (b : Board Move) : option Move :=
  match rev (move_stack b) with
  | m :: _ => Some m
  | [] => None
  end.

Class Chess (Move : Type) : Type := {
  (** [chess.Move.from_uci], raises on a malformed string *)
  from_uci : string -> Result Move;
  (** [move in board.legal_moves] *)
  legal_moves : Board Move -> Move -> bool;
  is_game_over : Board Move -> bool;
  fen : Board Move -> string
}.

(** ** The engine process (stockfish wrapper)

    Every call goes to an external process: it may raise, and it changes the
    state of the process. *)

Class Stockfish (E : Type) : Type := {
  set_skill_level : Z -> E -> Result unit * E;
  set_fen_position : string -> E -> Result unit * E;
  get_evaluation : E -> Result Evaluation * E;
  (** [None] when the engine finds no move *)
  get_best_move : E -> Result (option string) * E;
  make_moves_from_current_position : list (option string) -> E -> Result unit * E
}.

(** ** Session state *)

(** One row of [st.session_state.move_history] (lines 124-129). *)
Record MoveRow : Type := mkRow {
  row_your_move : string;
  row_best_move : option string;
  row_move_quality : string;
  row_eval : Z
}.

(** The dict stored under ["last_data"] by a played move (lines 116-121). *)
Record LastData : Type := mkLastData {
  ld_user_move : string;
  ld_best_move : option string;
  ld_quality : string;
  ld_eval : Evaluation
}.

(** [st.session_state["last_data"]]: absent until a move or a reset, the
    empty dict after a reset. *)
Inductive Summary : Type :=
| summary_unset
| summary_empty
| summary_of (d : LastData).

(** Smaller evaluation bar (lines 31-47): the height of the green bar. *)
Definition draw_eval_bar (score_cp : Z) : Z :=
  let score := Z.max (Z.min score_cp 1000) (-1000) in
  let bar_height := 1000 + score in
  bar_height.

(** Line 65. *)
Definition eval_score (eval_data : Evaluation) : Z :=
  if EvalType_eqb (type_ eval_data) cp then value eval_data
  else if value eval_data >? 0 then 1000 else -1000.

Inductive Button : Type := Play_Move | Undo | Reset.

(** What the browser sends with a rerun: the text of the move field and
    the button that was pressed, if any. *)
Record Request : Type := mkRequest {
  uci_input : string;
  clicked : option Button
}.

Section Script.

Context {Move : Type} {rules : Chess Move}.
Context {E : Type} {sf : Stockfish E}.

Record Session : Type := mkSession {
  board : Board Move;
  evals : list Z;
  move_history : list MoveRow;
  last_data : Summary
}.

(** Lines 18-23 on an empty [st.session_state]. *)
Definition fresh_session : Session :=
  mkSession Board_new [] [] summary_unset.

(** Elements written to the page. *)
Inductive Widget : Type :=
| st_error (msg : string)
| st_info (msg : string)
| st_pyplot (bar_height : Z)
| st_board (b : Board Move) (lastmove : option Move).

(** What a run of the script works on. *)
Record World : Type := mkWorld {
  stockfish : E;
  session_state : Session;
  page : list Widget
}.

(** *** Statements: state that survives a raised exception *)

Definition M (A : Type) : Type := World -> Result A * World.

Definition ret {A : Type} (a : A) : M A := fun w => (inr a, w).

Definition bind {A B : Type} (m : M A) (f : A -> M B) : M B :=
  fun w =>
    match m w with
    | (inl e, w') => (inl e, w')
    | (inr a, w') => f a w'
    end.

(** [try: body except Exception as e: handler] *)
Definition try_except {A : Type} (body : M A) (handler : Exception -> M A) : M A :=
  fun w =>
    match body w with
    | (inl e, w') => handler e w'
    | (inr a, w') => (inr a, w')
    end.

Definition lift {A : Type} (r : Result A) : M A := fun w => (r, w).

Definition engine {A : Type} (op : E -> Result A * E) : M A :=
  fun w =>
    let (r, e') := op (stockfish w) in
    (r, mkWorld e' (session_state w) (page w)).

Definition gets {A : Type} (f : Session -> A) : M A :=
  fun w => (inr (f (session_state w)), w).

Definition modify (f : Session -> Session) : M unit :=
  fun w => (inr tt, mkWorld (stockfish w) (f (session_state w)) (page w)).

Definition emit (x : Widget) : M unit :=
  fun w => (inr tt, mkWorld (stockfish w) (session_state w) (page w ++ [x])).

End Script.

Arguments Session : clear implicits.
Arguments Widget : clear implicits.
Arguments World : clear implicits.
Arguments M : clear implicits.

Declare Scope script_scope.
Delimit Scope script_scope with script.
Notation "x <- c1 ;; c2" := (bind c1 (fun x => c2))
  (at level 61, c1 at next level, right associativity) : script_scope.
Notation "c1 ;; c2" := (bind c1 (fun _ => c2))
  (at level 61, right associativity) : script_scope.

(** ** The page script *)

Section Page.

Context {Move : Type} {rules : Chess Move}.
Context {E : Type} {sf : Stockfish E}.

Local Open Scope script_scope.

Definition set_board (b : Board Move) (s : Session Move) : Session Move :=
  mkSession b (evals s) (move_history s) (last_data s).

Definition set_evals (l : list Z) (s : Session Move) : Session Move :=
  mkSession (board s) l (move_history s) (last_data s).

Definition set_move_history (l : list MoveRow) (s : Session Move) : Session Move :=
  mkSession (board s) (evals s) l (last_data s).

Definition set_last_data (d : Summary) (s : Session Move) : Session Move :=
  mkSession (board s) (evals s) (move_history s) d.

(** Truth value of a list. *)
Definition nonempty {A : Type} (l : list A) : bool :=
  match l with
  | [] => false
  | _ :: _ => true
  end.

(** Eval bar (lines 60-69). *)
Definition eval_bar : M Move E unit :=
  b <- gets board ;;
  if negb (is_game_over b) then
    engine (set_fen_position (fen b)) ;;
    eval_data <- engine get_evaluation ;;
    ev <- gets evals ;;
    modify (set_evals (ev ++ [eval_score eval_data])) ;;
    emit (st_pyplot (draw_eval_bar (eval_score eval_data)))
  else
    emit (st_info "Game over.").

(** Board (lines 73-77). *)
Definition board_view : M Move E unit :=
  b <- gets board ;;
  emit (st_board b (peek b)).

(** The [try] block of the Play Move button (lines 87-137). *)
Definition play_move_body (user_move : string) : M Move E unit :=
  move <- lift (from_uci (strip user_move)) ;;
  b <- gets board ;;
  if legal_moves b move then
    modify (set_board (push b move)) ;;
    b1 <- gets board ;;
    engine (set_fen_position (fen b1)) ;;
    played_eval <- engine get_evaluation ;;
    best_move <- engine get_best_move ;;
    engine (set_fen_position (fen b1)) ;;
    engine (make_moves_from_current_position [best_move]) ;;
    best_eval <- engine get_evaluation ;;
    let quality := move_quality played_eval best_eval in
    modify (set_last_data
              (summary_of (mkLastData user_move best_move quality played_eval))) ;;
    mh <- gets move_history ;;
    modify (set_move_history
              (mh ++ [mkRow user_move best_move quality (value played_eval)])) ;;
    b2 <- gets board ;;
    emit (st_board b2 (peek b2))
  else
    emit (st_error "Illegal move.").

(** Play Move (lines 85-139). *)
Definition play_move (user_move : string) : M Move E unit :=
  try_except (play_move_body user_move)
    (fun e => emit (st_error ("Invalid move format: " ++ e)%string)).

(** Undo (lines 142-148). *)
Definition undo : M Move E unit :=
  b <- gets board ;;
  if nonempty (move_stack b) then
    b' <- lift (pop b) ;;
    modify (set_board b') ;;
    ev <- gets evals ;;
    (if nonempty ev then
       ev' <- lift (list_pop ev) ;;
       modify (set_evals ev')
     else ret tt) ;;
    mh <- gets move_history ;;
    (if nonempty mh then
       mh' <- lift (list_pop mh) ;;
       modify (set_move_history mh')
     else ret tt)
  else ret tt.

(** Reset (lines 151-155). *)
Definition reset : M Move E unit :=
  modify (set_board Board_new) ;;
  modify (set_evals []) ;;
  modify (set_move_history []) ;;
  modify (set_last_data summary_empty).

(** Move actions (lines 82-155): a rerun sees at most one of the three
    buttons pressed. *)
Definition buttons (r : Request) : M Move E unit :=
  match clicked r with
  | Some Play_Move => play_move (uci_input r)
  | Some Undo => undo
  | Some Reset => reset
  | None => ret tt
  end.

(** One execution of the script. Line 15 configures the engine, then come
    the eval bar, the board and the buttons. The summary cards, the history
    table and the chart (lines 157-187) only read the session. *)
Definition script (r : Request) : M Move E unit :=
  engine (set_skill_level 15) ;;
  eval_bar ;;
  board_view ;;
  buttons r.

(** A rerun: line 14 starts a new engine process [e] for it, the session
    [s] is the one the previous run left, the page starts empty. *)
Definition rerun (r : Request) (e : E) (s : Session Move)
  : Result unit * World Move E :=
  script r (mkWorld e s []).

Definition session_after (r : Request) (e : E) (s : Session Move) : Session Move :=
  session_state (snd (rerun r e s)).

(** The session after a sequence of reruns. *)
Fixpoint run_all (t : list (Request * E)) (s : Session Move) : Session Move :=
  match t with
  | [] => s
  | (r, e) :: t' => run_all t' (session_after r e s)
  end.

(** Every rerun of the sequence finds the game still running. *)
Fixpoint game_on (t : list (Request * E)) (s : Session Move) : Prop :=
  match t with
  | [] => True
  | (r, e) :: t' =>
      is_game_over (board s) = false /\ game_on t' (session_after r e s)
  end.

(** Sessions that a sequence of reruns produces from a new session. *)
Inductive reachable : Session Move -> Prop :=
| reachable_fresh : reachable fresh_session
| reachable_rerun r e s : reachable s -> reachable (session_after r e s).

(** Every row of the history belongs to a move on the board. *)
Definition history_on_board (s : Session Move) : Prop :=
  (List.length (move_history s) <= List.length (move_stack (board s)))%nat.

End Page.

(** ** Stand-ins for the two collaborators

    A rules table that knows the first two plies of a game and an engine
    that replays a list of prepared replies; they give the statements below
    concrete runs of the script to be evaluated on. *)

Module Demo.

Definition char_between (lo hi c : ascii) : bool :=
  ((nat_of_ascii lo <=? nat_of_ascii c) && (nat_of_ascii c <=? nat_of_ascii hi))%nat.

Definition is_square (f r : ascii) : bool :=
  char_between "a" "h" f && char_between "1" "8" r.

Definition is_promotion (c : ascii) : bool :=
  existsb (Ascii.eqb c) ["p"; "n"; "b"; "r"; "q"; "k"]%char.

(** UCI text of a move: origin square, destination square, optional
    promotion letter; ["0000"] is the null move. *)
Definition parse_uci (uci : string) : Result string :=
  if (uci =? "0000")%string then inr uci
  else
    match list_ascii_of_string uci with
    | [f1; r1; f2; r2] =>
        if is_square f1 r1 && is_square f2 r2
                     && negb (Ascii.eqb f1 f2 && Ascii.eqb r1 r2)
        then inr uci
        else inl ("invalid uci: " ++ uci)%string
    | [f1; r1; f2; r2; p] =>
        if is_square f1 r1 && is_square f2 r2 && is_promotion p
                     && negb (Ascii.eqb f1 f2 && Ascii.eqb r1 r2)
        then inr uci
        else inl ("invalid uci: " ++ uci)%string
    | _ => inl ("expected uci string to be of length 4 or 5: " ++ uci)%string
    end.

Definition white_first_moves : list string :=
  ["a2a3"; "a2a4"; "b2b3"; "b2b4"; "c2c3"; "c2c4"; "d2d3"; "d2d4";
   "e2e3"; "e2e4"; "f2f3"; "f2f4"; "g2g3"; "g2g4"; "h2h3"; "h2h4";
   "b1a3"; "b1c3"; "g1f3"; "g1h3"].

Definition black_first_moves : list string :=
  ["a7a6"; "a7a5"; "b7b6"; "b7b5"; "c7c6"; "c7c5"; "d7d6"; "d7d5";
   "e7e6"; "e7e5"; "f7f6"; "f7f5"; "g7g6"; "g7g5"; "h7h6"; "h7h5";
   "b8a6"; "b8c6"; "g8f6"; "g8h6"].

Definition table_legal (b : Board string) (m : string) : bool :=
  match move_stack b with
  | [] => existsb (String.eqb m) white_first_moves
  | [_] => existsb (String.eqb m) black_first_moves
  | _ => false
  end.

Definition table_over (b : Board string) : bool :=
  (2 <=? List.length (move_stack b))%nat.

Definition table_fen (b : Board string) : string :=
  String.concat " " (cons "startpos" (move_stack b)).

#[global] Instance two_plies : Chess string := {
  from_uci := parse_uci;
  legal_moves := table_legal;
  is_game_over := table_over;
  fen := table_fen
}.

(** A prepared reply of the engine: an exception, or the evaluation and
    best move it reports when asked. *)
Inductive Reply : Type :=
| crash (msg : string)
| answer (ev : Evaluation) (bm : option string).

Definition default_reply : Reply := answer (mkEval cp 25) (Some "e7e5").

(** The engine consumes one reply per call and falls back on
    [default_reply] when the list is used up. *)
Definition next_reply (e : list Reply) : Reply * list Reply :=
  match e with
  | [] => (default_reply, [])
  | r :: e' => (r, e')
  end.

Definition command (e : list Reply) : Result unit * list Reply :=
  match next_reply e with
  | (crash msg, e') => (inl msg, e')
  | (answer _ _, e') => (inr tt, e')
  end.

Definition ask_evaluation (e : list Reply) : Result Evaluation * list Reply :=
  match next_reply e with
  | (crash msg, e') => (inl msg, e')
  | (answer ev _, e') => (inr ev, e')
  end.

Definition ask_best_move (e : list Reply) : Result (option string) * list Reply :=
  match next_reply e with
  | (crash msg, e') => (inl msg, e')
  | (answer _ bm, e') => (inr bm, e')
  end.

#[global] Instance replay : Stockfish (list Reply) := {
  set_skill_level := fun _ => command;
  set_fen_position := fun _ => command;
  get_evaluation := ask_evaluation;
  get_best_move := ask_best_move;
  make_moves_from_current_position := fun _ => command
}.

(** An engine that answers every call. *)
Definition healthy : list Reply := [].

(** An engine that answers the three calls of the page header and eval bar
    and the first call of the move analysis, then fails once. *)
Definition fails_in_analysis : list Reply :=
  [default_reply; default_reply; default_reply; default_reply; crash "engine died"].

(** An engine that reports a forced mate. *)
Definition sees_mate (n : Z) : list Reply :=
  [default_reply; default_reply; answer (mkEval mate n) None].

Definition press (b : Button) (text : string) : Request := mkRequest text (Some b).

Definition idle : Request := mkRequest "" None.

(** The state a handler starts from: engine, session, empty page. *)
Definition world (e : list Reply) (s : Session string) : World string (list Reply) :=
  mkWorld e s [].

(** The session after the page was opened and "e2e4" was played. *)
Definition after_e2e4 : Session string :=
  run_all [(idle, healthy); (press Play_Move "e2e4", healthy)] fresh_session.

(** The session after "e2e4" was submitted and the engine died during the
    analysis. *)
Definition after_failed_analysis : Session string :=
  session_after (press Play_Move "e2e4") fails_in_analysis fresh_session.

End Demo.

(** ** Summary cards, history table and chart (lines 157-187)

    The tail of the script only reads the session the buttons left. *)

(** [str(n)] for an integer. *)
Definition str_int (n : Z) : string := NilZero.string_of_int (Z.to_int n).

Inductive Panel : Type :=
| metric (label : string) (shown : option string)
| st_write (text : string)
| st_table (rows : list MoveRow)
| st_chart (points : list Z)
| st_chart_info (msg : string).

(** Move summary (lines 158-167): four cards for a non-empty ["last_data"],
    a placeholder when the key is absent or holds the empty dict. *)
Definition summary_cards (data : Summary) : list Panel :=
  match data with
  | summary_of d =>
      [metric "Your Move" (Some (ld_user_move d));
       metric "Best Move" (ld_best_move d);
       metric "Move Quality" (Some (ld_quality d));
       metric "Eval" (Some (str_int (value (ld_eval d))))]
  | summary_unset | summary_empty => [st_write "No data yet."]
  end.

(** Move history (lines 170-175). *)
Definition history_table (rows : list MoveRow) : list Panel :=
  match rows with
  | _ :: _ => [st_table rows]
  | [] => [st_write "No moves yet."]
  end.

(** Evaluation chart (lines 178-187). *)
Definition evaluation_chart (points : list Z) : list Panel :=
  match points with
  | _ :: _ => [st_chart points]
  | [] => [st_chart_info "No data yet."]
  end.

(** The labels [move_quality] can return. *)
Definition quality_labels : list string :=
  ["Unclear ❓"; "Excellent ✅"; "Good 👍"; "Inaccuracy ⚠️"; "Mistake ❌"; "Blunder 💥"].

(** What is left of a history row when the recorded text is put aside. *)
Definition row_analysis (row : MoveRow) : option string * string * Z :=
  (row_best_move row, row_move_quality row, row_eval row).

Section Views.

Context {Move : Type} {rules : Chess Move}.
Context {E : Type} {sf : Stockfish E}.

Definition footer (s : Session Move) : list Panel :=
  summary_cards (last_data s) ++ history_table (move_history s)
    ++ evaluation_chart (evals s).

(** What a rerun shows below the buttons: nothing when an exception
    stopped the script before it got there. *)
Definition page_bottom (r : Request) (e : E) (s : Session Move) : option (list Panel) :=
  match fst (rerun r e s) with
  | inr _ => Some (footer (session_after r e s))
  | inl _ => None
  end.

(** The moves [ms], played one after the other from [b], are each legal in
    the position they are played in. *)
Fixpoint legal_from (b : Board Move) (ms : list Move) : Prop :=
  match ms with
  | [] => True
  | m :: ms' => legal_moves b m = true /\ legal_from (push b m) ms'
  end.

(** The board holds a legal line of play from the initial position. *)
Definition legal_line (b : Board Move) : Prop :=
  legal_from Board_new (move_stack b).

(** The calls of the move analysis (lines 91-97) answer in every state of
    the engine. *)
Definition analysis_never_raises : Prop :=
  (forall f e, exists e', set_fen_position f e = (inr tt, e')) /\
  (forall e, exists ev e', get_evaluation e = (inr ev, e')) /\
  (forall e, exists bm e', get_best_move e = (inr bm, e')) /\
  (forall l e, exists e', make_moves_from_current_position l e = (inr tt, e')).

(** White space around the move text. *)
Definition blank (s : string) : Prop :=
  forallb isspace (list_ascii_of_string s) = true.

End Views.

(** An engine without state that answers every call the same way. *)
Module Steady.


End Steady.

(** * Properties *)

(** ** Move quality *)

Lemma EvalType_eqb_spec a b : reflect (a = b) (EvalType_eqb a b).
Proof. destruct a, b; constructor; congruence. Qed.

Lemma move_quality_same_type score1 score2 :
  type_ score1 = type_ score2 ->
  move_quality score1 score2 =
    let diff := Z.abs (value score1 - value score2) in
    if diff <? 30 then "Excellent ✅"
    else if diff <? 80 then "Good 👍"
    else if diff <? 150 then "Inaccuracy ⚠️"
    else if diff <? 300 then "Mistake ❌"
    else "Blunder 💥".
Proof.
  intros Hty. unfold move_quality.
  destruct (EvalType_eqb_spec (type_ score1) (type_ score2)); [reflexivity | contradiction].
Qed.

Ltac bucket :=
  repeat match goal with
    | |- context [?a <? ?b] => destruct (Z.ltb_spec a b); try lia
    end;
  try reflexivity.

(** C3. For two evaluations of the same kind the label depends only on
    [diff = |value score1 - value score2|]: below 30 Excellent, from 30 and
    below 80 Good, from 80 and below 150 Inaccuracy, from 150 and below 300
    Mistake, from 300 on Blunder; so 29, 30, 79, 80, 149, 150, 299, 300 give
    Excellent, Good, Good, Inaccuracy, Inaccuracy, Mistake, Mistake,
    Blunder. *)
Theorem move_quality_buckets (score1 score2 : Evaluation) (diff : Z) :
  type_ score1 = type_ score2 ->
  diff = Z.abs (value score1 - value score2) ->
  (diff < 30 -> move_quality score1 score2 = "Excellent ✅") /\
  (30 <= diff < 80 -> move_quality score1 score2 = "Good 👍") /\
  (80 <= diff < 150 -> move_quality score1 score2 = "Inaccuracy ⚠️") /\
  (150 <= diff < 300 -> move_quality score1 score2 = "Mistake ❌") /\
  (300 <= diff -> move_quality score1 score2 = "Blunder 💥") /\
  (diff = 29 -> move_quality score1 score2 = "Excellent ✅") /\
  (diff = 30 -> move_quality score1 score2 = "Good 👍") /\
  (diff = 79 -> move_quality score1 score2 = "Good 👍") /\
  (diff = 80 -> move_quality score1 score2 = "Inaccuracy ⚠️") /\
  (diff = 149 -> move_quality score1 score2 = "Inaccuracy ⚠️") /\
  (diff = 150 -> move_quality score1 score2 = "Mistake ❌") /\
  (diff = 299 -> move_quality score1 score2 = "Mistake ❌") /\
  (diff = 300 -> move_quality score1 score2 = "Blunder 💥").
Proof.
  intros Hty Hdiff.
  rewrite (move_quality_same_type _ _ Hty). cbv zeta. rewrite <- Hdiff.
  repeat split; intros; bucket.
Qed.

(** C4. Two evaluations of different kinds are always classified Unclear,
    whatever their values. *)
Theorem move_quality_unclear (score1 score2 : Evaluation) :
  type_ score1 <> type_ score2 ->
  move_quality score1 score2 = "Unclear ❓".
Proof.
  intros Hty. unfold move_quality.
  destruct (EvalType_eqb_spec (type_ score1) (type_ score2)); [contradiction | reflexivity].
Qed.

(** ** Lists *)

Lemma length_removelast {A : Type} (l : list A) :
  List.length (removelast l) = Nat.pred (List.length l).
Proof.
  rewrite removelast_firstn_len, length_firstn. lia.
Qed.

Lemma nonempty_true {A : Type} (l : list A) : nonempty l = true <-> l <> [].
Proof. destruct l; simpl; split; congruence. Qed.

Lemma nonempty_false {A : Type} (l : list A) : nonempty l = false <-> l = [].
Proof. destruct l; simpl; split; congruence. Qed.

(** ** The handlers, one by one *)

Section Facts.

Context {Move : Type} {rules : Chess Move}.
Context {E : Type} {sf : Stockfish E}.

Implicit Types (w : World Move E) (s : Session Move).

Ltac open_script :=
  unfold bind, try_except, gets, modify, emit, ret, lift, engine; simpl.

(** The session that [undo] leaves: gated on the board's move stack, each
    pop guarded by the truth value of its own list. *)
Lemma undo_run w :
  undo w =
    (inr tt,
     mkWorld (stockfish w)
       (if nonempty (move_stack (board (session_state w))) then
          mkSession (mkBoard (removelast (move_stack (board (session_state w)))))
            (removelast (evals (session_state w)))
            (removelast (move_history (session_state w)))
            (last_data (session_state w))
        else session_state w)
       (page w)).
Proof.
  destruct w as [e [[st] ev mh ld] pg].
  destruct st, ev, mh; reflexivity.
Qed.

Lemma reset_run w :
  reset w =
    (inr tt, mkWorld (stockfish w) (mkSession Board_new [] [] summary_empty) (page w)).
Proof. reflexivity. Qed.

(** The eval bar: nothing happens to the session when the game is over or
    the engine raises, otherwise one sample is appended. *)
Lemma eval_bar_cases w :
  let s := session_state w in
  let out := eval_bar w in
  (is_game_over (board s) = true /\ fst out = inr tt /\ session_state (snd out) = s)
  \/
  (is_game_over (board s) = false /\ (exists e, fst out = inl e) /\
   session_state (snd out) = s)
  \/
  (is_game_over (board s) = false /\ fst out = inr tt /\
   exists x, session_state (snd out) = set_evals (evals s ++ [x]) s).
Proof.
  unfold eval_bar. open_script.
  destruct (is_game_over (board (session_state w))); simpl.
  - left. repeat split.
  - right.
    destruct (set_fen_position _ (stockfish w)) as [[e|[]] e1]; simpl.
    + left. repeat split. eauto.
    + destruct (get_evaluation e1) as [[e|eval_data] e2]; simpl.
      * left. repeat split. eauto.
      * right. repeat split. eauto.
Qed.

(** The four ways through the [try] block: the text does not parse, the
    move is illegal, an engine call raises after the push, or the analysis
    completes. *)
Lemma play_move_body_cases user_move w :
  let s := session_state w in
  let out := play_move_body user_move w in
  (exists e, from_uci (strip user_move) = inl e /\ out = (inl e, w))
  \/
  (exists move,
      from_uci (strip user_move) = inr move /\
      legal_moves (board s) move = false /\
      out = (inr tt, mkWorld (stockfish w) s (page w ++ [st_error "Illegal move."])))
  \/
  (exists move e,
      from_uci (strip user_move) = inr move /\
      legal_moves (board s) move = true /\
      fst out = inl e /\
      session_state (snd out) = set_board (push (board s) move) s /\
      page (snd out) = page w)
  \/
  (exists move played_eval best_move best_eval,
      from_uci (strip user_move) = inr move /\
      legal_moves (board s) move = true /\
      fst out = inr tt /\
      session_state (snd out) =
        mkSession (push (board s) move) (evals s)
          (move_history s ++
             [mkRow user_move best_move
                (move_quality played_eval best_eval) (value played_eval)])
          (summary_of
             (mkLastData user_move best_move
                (move_quality played_eval best_eval) played_eval)) /\
      page (snd out) =
        page w ++ [st_board (push (board s) move) (peek (push (board s) move))]).
Proof.
  unfold play_move_body. open_script.
  destruct (from_uci (strip user_move)) as [e|move] eqn:Hparse; simpl.
  { left. eauto. }
  right.
  destruct (legal_moves (board (session_state w)) move) eqn:Hlegal; simpl.
  2:{ left. exists move. repeat split; auto. }
  right.
  destruct (set_fen_position _ (stockfish w)) as [[e|[]] e1]; simpl.
  { left. exists move, e. repeat split; auto. }
  destruct (get_evaluation e1) as [[e|played_eval] e2]; simpl.
  { left. exists move, e. repeat split; auto. }
  destruct (get_best_move e2) as [[e|best_move] e3]; simpl.
  { left. exists move, e. repeat split; auto. }
  destruct (set_fen_position _ e3) as [[e|[]] e4]; simpl.
  { left. exists move, e. repeat split; auto. }
  destruct (make_moves_from_current_position _ e4) as [[e|[]] e5]; simpl.
  { left. exists move, e. repeat split; auto. }
  destruct (get_evaluation e5) as [[e|best_eval] e6]; simpl.
  { left. exists move, e. repeat split; auto. }
  right. exists move, played_eval, best_move, best_eval. repeat split; auto.
Qed.

Lemma play_move_unfold user_move w :
  play_move user_move w =
    match play_move_body user_move w with
    | (inl e, w') =>
        (inr tt,
         mkWorld (stockfish w') (session_state w')
           (page w' ++ [st_error ("Invalid move format: " ++ e)%string]))
    | (inr a, w') => (inr a, w')
    end.
Proof. reflexivity. Qed.

(** Play Move never lets an exception escape. *)
Lemma play_move_returns user_move w : fst (play_move user_move w) = inr tt.
Proof.
  rewrite play_move_unfold.
  destruct (play_move_body user_move w) as [[e|[]] w']; reflexivity.
Qed.

(** What Play Move can do to the session. *)
Lemma play_move_session user_move w :
  let s := session_state w in
  let s' := session_state (snd (play_move user_move w)) in
  s' = s
  \/ (exists move,
        legal_moves (board s) move = true /\ s' = set_board (push (board s) move) s)
  \/ (exists move row d,
        legal_moves (board s) move = true /\
        s' = mkSession (push (board s) move) (evals s) (move_history s ++ [row])
               (summary_of d)).
Proof.
  cbv zeta. rewrite play_move_unfold.
  destruct (play_move_body_cases user_move w)
    as [(e & _ & Hout) | [(move & _ & _ & Hout) | [(move & e & _ & Hlegal & Hfst & Hs & _)
       | (move & pe & bm & be & _ & Hlegal & Hfst & Hs & _)]]].
  - rewrite Hout. left. reflexivity.
  - rewrite Hout. left. reflexivity.
  - destruct (play_move_body user_move w) as [[e'|[]] w']; simpl in *; try discriminate.
    right. left. eauto.
  - destruct (play_move_body user_move w) as [[e'|[]] w']; simpl in *; try discriminate.
    right. right. eauto.
Qed.

Lemma script_unfold r w :
  script r w =
    match set_skill_level 15 (stockfish w) with
    | (inl e, e0) => (inl e, mkWorld e0 (session_state w) (page w))
    | (inr _, e0) =>
        match eval_bar (mkWorld e0 (session_state w) (page w)) with
        | (inl e, w1) => (inl e, w1)
        | (inr _, w1) =>
            buttons r
              (mkWorld (stockfish w1) (session_state w1)
                 (page w1 ++
                    [st_board (board (session_state w1))
                       (peek (board (session_state w1)))]))
        end
    end.
Proof.
  unfold script, board_view. open_script.
  destruct (set_skill_level 15 (stockfish w)) as [[e|[]] e0]; try reflexivity.
Qed.

(** A rerun either stops before the buttons with the session untouched, or
    runs the buttons on the session the eval bar left. *)
Lemma script_cases r w :
  let s := session_state w in
  let s' := session_state (snd (script r w)) in
  s' = s
  \/
  (exists w1,
      is_game_over (board s) = true /\ session_state w1 = s /\
      s' = session_state (snd (buttons r w1)))
  \/
  (exists w1 x,
      is_game_over (board s) = false /\
      session_state w1 = set_evals (evals s ++ [x]) s /\
      s' = session_state (snd (buttons r w1))).
Proof.
  cbv zeta. rewrite script_unfold.
  destruct (set_skill_level 15 (stockfish w)) as [[e|[]] e0]; simpl.
  { left. reflexivity. }
  pose proof (eval_bar_cases (mkWorld e0 (session_state w) (page w))) as Hbar.
  simpl in Hbar.
  destruct (eval_bar (mkWorld e0 (session_state w) (page w))) as [[e|[]] w1];
    simpl in Hbar.
  - destruct Hbar as [(_ & Habs & _) | [(_ & _ & Hs) | (_ & Habs & _)]];
      try discriminate.
    left. exact Hs.
  - right.
    destruct Hbar as [(Hover & _ & Hs) | [(_ & (e & Habs) & _) | (Hover & _ & x & Hs)]];
      try discriminate.
    + left. eexists. split; [exact Hover|]. split; [|reflexivity]. exact Hs.
    + right. eexists. exists x. split; [exact Hover|]. split; [|reflexivity]. exact Hs.
Qed.

(** ** Invariants of the session *)

Lemma buttons_history_on_board r w :
  history_on_board (session_state w) ->
  history_on_board (session_state (snd (buttons r w))).
Proof.
  unfold history_on_board, buttons. intros Hinv.
  destruct (clicked r) as [[| |]|].
  - destruct (play_move_session (uci_input r) w)
      as [Hs | [(move & _ & Hs) | (move & row & d & _ & Hs)]];
      rewrite Hs; simpl; rewrite ?length_app; simpl; lia.
  - rewrite undo_run. simpl.
    destruct (nonempty (move_stack (board (session_state w)))); simpl; [|exact Hinv].
    rewrite !length_removelast. lia.
  - rewrite reset_run. simpl. lia.
  - exact Hinv.
Qed.

Lemma reachable_history_on_board s : reachable s -> history_on_board s.
Proof.
  induction 1 as [|r e s _ IH].
  - unfold history_on_board. simpl. lia.
  - unfold session_after, rerun.
    destruct (script_cases r (mkWorld e s []))
      as [Hs | [(w1 & _ & Hw1 & Hs) | (w1 & x & _ & Hw1 & Hs)]];
      simpl in *; rewrite Hs; try exact IH;
      apply buttons_history_on_board; rewrite Hw1; exact IH.
Qed.

Lemma reachable_run_all t s : reachable s -> reachable (run_all t s).
Proof.
  revert s. induction t as [|[r e] t IH]; intros s Hs; simpl.
  - exact Hs.
  - apply IH. constructor. exact Hs.
Qed.

Lemma buttons_history_sampled r w :
  (List.length (move_history (session_state w))
   < List.length (evals (session_state w)))%nat ->
  (List.length (move_history (session_state (snd (buttons r w))))
   <= List.length (evals (session_state (snd (buttons r w)))))%nat.
Proof.
  unfold buttons. intros Hinv.
  destruct (clicked r) as [[| |]|].
  - destruct (play_move_session (uci_input r) w)
      as [Hs | [(move & _ & Hs) | (move & row & d & _ & Hs)]];
      rewrite Hs; simpl; rewrite ?length_app; simpl; lia.
  - rewrite undo_run. simpl.
    destruct (nonempty (move_stack (board (session_state w)))); simpl; [|lia].
    rewrite !length_removelast. lia.
  - rewrite reset_run. simpl. lia.
  - simpl. lia.
Qed.

Lemma run_all_history_sampled t s :
  (List.length (move_history s) <= List.length (evals s))%nat ->
  game_on t s ->
  (List.length (move_history (run_all t s))
   <= List.length (evals (run_all t s)))%nat.
Proof.
  revert s. induction t as [|[r e] t IH]; intros s Hinv Hon; simpl.
  - exact Hinv.
  - destruct Hon as [Hover Hon]. apply IH; [|exact Hon].
    unfold session_after, rerun.
    destruct (script_cases r (mkWorld e s []))
      as [Hs | [(w1 & Habs & _) | (w1 & x & _ & Hw1 & Hs)]]; simpl in *.
    + rewrite Hs. exact Hinv.
    + congruence.
    + rewrite Hs. apply buttons_history_sampled. rewrite Hw1. simpl.
      rewrite length_app. simpl. lia.
Qed.

End Facts.

(** ** The session state machine *)

Section Claims.

Context {Move : Type} {rules : Chess Move}.
Context {E : Type} {sf : Stockfish E}.

Implicit Types (w : World Move E) (s : Session Move).

(** C1, in the form the script satisfies. After any sequence of reruns
    from a new session the move history is never longer than the board's
    move stack, and as long as every rerun found the game still running it
    is never longer than the sequence of evaluation samples. The two
    lengths are not equal in general: the eval bar samples on every rerun,
    a played move adds a history row and no sample. *)
Theorem history_lengths (t : list (Request * E)) :
  let s := run_all t fresh_session in
  (List.length (move_history s) <= List.length (move_stack (board s)))%nat /\
  (game_on t fresh_session ->
   (List.length (move_history s) <= List.length (evals s))%nat).
Proof.
  cbv zeta. split.
  - apply reachable_history_on_board, reachable_run_all. constructor.
  - intros Hon. apply run_all_history_sampled; [simpl; lia | exact Hon].
Qed.

(** C2, in the form the script satisfies. When the [try] block of Play
    Move raises, the handler reports the error and returns normally; the
    move history, the evaluation samples and the summary are what they
    were. The board is what it was when the move text failed to parse;
    when the text parsed, the exception came from the engine, after the
    move was pushed, and the board holds that move. *)
Theorem play_move_exception user_move w e w' :
  play_move_body user_move w = (inl e, w') ->
  let s := session_state w in
  let out := play_move user_move w in
  let s' := session_state (snd out) in
  fst out = inr tt /\
  page (snd out) = page w ++ [st_error ("Invalid move format: " ++ e)%string] /\
  evals s' = evals s /\
  move_history s' = move_history s /\
  last_data s' = last_data s /\
  (forall e0, from_uci (strip user_move) = inl e0 -> s' = s) /\
  (forall move, from_uci (strip user_move) = inr move ->
     legal_moves (board s) move = true /\ board s' = push (board s) move).
Proof.
  intros Hbody. cbv zeta. rewrite play_move_unfold.
  destruct (play_move_body_cases user_move w)
    as [(e1 & Hparse & Hout) | [(move & _ & _ & Hout)
       | [(move & e1 & Hparse & Hlegal & Hfst & Hs & Hpage)
       | (move & pe & bm & be & _ & _ & Hfst & _)]]];
    cbv zeta in *; rewrite Hbody in *; simpl in *; try discriminate.
  - injection Hout as -> ->.
    repeat apply conj; try reflexivity. intros move Hmove. congruence.
  - rewrite Hs, Hpage. repeat apply conj; try reflexivity.
    + intros e0 He0. congruence.
    + intros move0 Hmove0. replace move0 with move by congruence.
      split; [exact Hlegal | reflexivity].
Qed.

(** C5. A move text that parses to a move outside the legal moves of the
    current position is answered with the error "Illegal move."; nothing
    else happens: board, history, samples and summary are unchanged and
    the engine is not consulted. *)
Theorem play_move_illegal user_move w move :
  from_uci (strip user_move) = inr move ->
  legal_moves (board (session_state w)) move = false ->
  play_move user_move w =
    (inr tt,
     mkWorld (stockfish w) (session_state w) (page w ++ [st_error "Illegal move."])).
Proof.
  intros Hparse Hlegal. rewrite play_move_unfold.
  destruct (play_move_body_cases user_move w)
    as [(e1 & Habs & _) | [(m & _ & _ & Hout)
       | [(m & e1 & Hm & Habs & _) | (m & pe & bm & be & Hm & Habs & _)]]];
    cbv zeta in *; try congruence.
  rewrite Hout. reflexivity.
Qed.

(** C6, in the form the script satisfies. Undo is gated on the board's
    move stack, not on the move history. With an empty move stack it
    changes nothing; otherwise it takes back the last board move and drops
    the last evaluation sample and the last history row, each only if
    there is one. It never raises. So after a board move, a sample and a
    row were added, undo restores all three; and in a session produced by
    reruns a non-empty history implies a non-empty move stack. *)
Theorem undo_gated_on_move_stack w :
  let s := session_state w in
  let out := undo w in
  let s' := session_state (snd out) in
  fst out = inr tt /\
  (move_stack (board s) = [] -> snd out = w) /\
  (move_stack (board s) <> [] ->
     move_stack (board s') = removelast (move_stack (board s)) /\
     evals s' = removelast (evals s) /\
     move_history s' = removelast (move_history s)) /\
  (forall stack move samples x rows row,
     move_stack (board s) = stack ++ [move] ->
     evals s = samples ++ [x] ->
     move_history s = rows ++ [row] ->
     move_stack (board s') = stack /\ evals s' = samples /\ move_history s' = rows) /\
  (reachable s -> move_history s <> [] -> move_stack (board s) <> []).
Proof.
  cbv zeta. rewrite undo_run. simpl. repeat apply conj.
  - reflexivity.
  - intros Hstack. rewrite Hstack. simpl. destruct w; reflexivity.
  - intros Hstack. apply nonempty_true in Hstack. rewrite Hstack. simpl.
    repeat apply conj; reflexivity.
  - intros stack move samples x rows row Hstack Hev Hmh.
    rewrite Hstack, Hev, Hmh.
    replace (nonempty (stack ++ [move])) with true by (destruct stack; reflexivity).
    simpl. rewrite !removelast_last. repeat apply conj; reflexivity.
  - intros Hreach Hmh Hstack. apply reachable_history_on_board in Hreach.
    unfold history_on_board in Hreach. rewrite Hstack in Hreach.
    destruct (move_history (session_state w)); [congruence | simpl in Hreach; lia].
Qed.

(** C7. Whatever the session was, Reset puts the board back to the initial
    layout, empties the evaluation samples and the move history and stores
    the empty summary; it returns normally. *)
Theorem reset_clears w :
  let out := reset w in
  let s' := session_state (snd out) in
  fst out = inr tt /\
  board s' = Board_new /\
  move_stack (board s') = [] /\
  evals s' = [] /\
  move_history s' = [] /\
  last_data s' = summary_empty.
Proof. cbv zeta. rewrite reset_run. simpl. repeat apply conj; reflexivity. Qed.

(** C8. On the initial board with an empty history, when the rules library
    accepts "e2e4" and the engine answers its six calls, Play Move returns
    without reporting an error, the move is on the board and the history
    consists of exactly one row, whose played move is "e2e4". *)
Theorem play_move_e2e4 w move played_eval best_move best_eval e1 e2 e3 e4 e5 e6 :
  board (session_state w) = Board_new ->
  move_history (session_state w) = [] ->
  from_uci "e2e4" = inr move ->
  legal_moves Board_new move = true ->
  set_fen_position (fen (push Board_new move)) (stockfish w) = (inr tt, e1) ->
  get_evaluation e1 = (inr played_eval, e2) ->
  get_best_move e2 = (inr best_move, e3) ->
  set_fen_position (fen (push Board_new move)) e3 = (inr tt, e4) ->
  make_moves_from_current_position [best_move] e4 = (inr tt, e5) ->
  get_evaluation e5 = (inr best_eval, e6) ->
  let out := play_move "e2e4" w in
  let s' := session_state (snd out) in
  fst out = inr tt /\
  page (snd out) = page w ++ [st_board (push Board_new move) (Some move)] /\
  board s' = push Board_new move /\
  move_history s' =
    [mkRow "e2e4" best_move (move_quality played_eval best_eval) (value played_eval)] /\
  List.length (move_history s') = 1%nat.
Proof.
  intros Hboard Hmh Hparse Hlegal Hfen1 Hev1 Hbest Hfen2 Hmake Hev2.
  cbv zeta. rewrite play_move_unfold. unfold play_move_body.
  unfold bind, gets, modify, emit, ret, lift, engine.
  change (strip "e2e4") with "e2e4". rewrite Hparse. cbv beta iota.
  rewrite Hboard, Hlegal. cbn [session_state stockfish board set_board page].
  rewrite Hfen1. cbn [session_state stockfish board set_board page].
  rewrite Hev1. cbn [session_state stockfish board set_board page].
  rewrite Hbest. cbn [session_state stockfish board set_board page].
  rewrite Hfen2. cbn [session_state stockfish board set_board page].
  rewrite Hmake. cbn [session_state stockfish board set_board page].
  rewrite Hev2. simpl. rewrite Hmh.
  repeat apply conj; reflexivity.
Qed.

(** C9. When the game is not over and the engine answers, the eval bar
    appends exactly one sample: the engine's value as it is for a centipawn
    evaluation, 1000 for a mate evaluation with a positive value and -1000
    for a mate evaluation with any other value. *)
Theorem eval_bar_sample w eval_data e1 e2 :
  is_game_over (board (session_state w)) = false ->
  set_fen_position (fen (board (session_state w))) (stockfish w) = (inr tt, e1) ->
  get_evaluation e1 = (inr eval_data, e2) ->
  let s := session_state w in
  let s' := session_state (snd (eval_bar w)) in
  (type_ eval_data = cp -> evals s' = evals s ++ [value eval_data]) /\
  (type_ eval_data = mate -> value eval_data > 0 -> evals s' = evals s ++ [1000]) /\
  (type_ eval_data = mate -> value eval_data <= 0 -> evals s' = evals s ++ [-1000]) /\
  board s' = board s /\ move_history s' = move_history s /\ last_data s' = last_data s.
Proof.
  intros Hover Hfen Hev. cbv zeta. unfold eval_bar.
  unfold bind, gets, modify, emit, ret, lift, engine.
  rewrite Hover. cbn [negb]. rewrite Hfen. cbn [session_state stockfish].
  rewrite Hev. simpl. unfold eval_score.
  repeat apply conj; try reflexivity.
  - intros ->. reflexivity.
  - intros -> Hpos. simpl. destruct (Z.gtb_spec (value eval_data) 0); [reflexivity | lia].
  - intros -> Hneg. simpl. destruct (Z.gtb_spec (value eval_data) 0); [lia | reflexivity].
Qed.

(** C10. Undo leaves the summary of the last move as it is, in the handler
    and over a whole rerun in which Undo was pressed; a rerun changes the
    summary only through Reset or through a move that was played and
    recorded. *)
Theorem undo_keeps_summary :
  (forall w, last_data (session_state (snd (undo w))) = last_data (session_state w)) /\
  (forall text e s,
     last_data (session_after (mkRequest text (Some Undo)) e s) = last_data s) /\
  (forall r e s,
     last_data (session_after r e s) = last_data s
     \/ clicked r = Some Reset
     \/ (clicked r = Some Play_Move /\
         exists row d,
           move_history (session_after r e s) = move_history s ++ [row] /\
           last_data (session_after r e s) = summary_of d)).
Proof.
  assert (Hundo : forall w,
             last_data (session_state (snd (undo w))) = last_data (session_state w)).
  { intros w. rewrite undo_run. simpl.
    destruct (nonempty (move_stack (board (session_state w)))); reflexivity. }
  assert (Hrun : forall r e s,
             last_data (session_after r e s) = last_data s
             \/ clicked r = Some Reset
             \/ (clicked r = Some Play_Move /\
                 exists row d,
                   move_history (session_after r e s) = move_history s ++ [row] /\
                   last_data (session_after r e s) = summary_of d)).
  { intros r e s. unfold session_after, rerun.
    assert (Hbar : forall w1,
               last_data (session_state w1) = last_data s ->
               move_history (session_state w1) = move_history s ->
               let s' := session_state (snd (buttons r w1)) in
               last_data s' = last_data s
               \/ clicked r = Some Reset
               \/ (clicked r = Some Play_Move /\
                   exists row d,
                     move_history s' = move_history s ++ [row] /\
                     last_data s' = summary_of d)).
    { intros w1 Hld Hmh. cbv zeta. unfold buttons.
      destruct (clicked r) as [[| |]|].
      - destruct (play_move_session (uci_input r) w1)
          as [Hs | [(move & _ & Hs) | (move & row & d & _ & Hs)]]; rewrite Hs; simpl.
        + left. exact Hld.
        + left. exact Hld.
        + right. right. split; [reflexivity|]. exists row, d. rewrite Hmh. split; reflexivity.
      - left. rewrite Hundo. exact Hld.
      - right. left. reflexivity.
      - left. exact Hld. }
    destruct (script_cases r (mkWorld e s []))
      as [Hs | [(w1 & _ & Hw1 & Hs) | (w1 & x & _ & Hw1 & Hs)]];
      simpl in *; rewrite Hs.
    - left. reflexivity.
    - apply Hbar; rewrite Hw1; reflexivity.
    - apply Hbar; rewrite Hw1; reflexivity. }
  repeat apply conj; [exact Hundo | | exact Hrun].
  intros text e s.
  destruct (Hrun (mkRequest text (Some Undo)) e s) as [H | [H | (H & _)]];
    [exact H | discriminate H | discriminate H].
Qed.

End Claims.

(** ** The statements on concrete runs *)

Lemma history_lengths_witness :
  let t := [(Demo.idle, Demo.healthy); (Demo.press Play_Move "e2e4", Demo.healthy)] in
  game_on t fresh_session /\
  (List.length (move_history (run_all t fresh_session))
   <= List.length (evals (run_all t fresh_session)))%nat.
Proof.
  cbv zeta.
  assert (Hon : game_on
                  [(Demo.idle, Demo.healthy); (Demo.press Play_Move "e2e4", Demo.healthy)]
                  fresh_session).
  { vm_compute. repeat split. }
  split; [exact Hon|].
  exact (proj2 (history_lengths _) Hon).
Defined.

(** Opening the page already breaks the lockstep of history and samples:
    one sample, no history row. *)
Lemma lockstep_counterexample :
  ~ (forall s : Session string,
       reachable (E := list Demo.Reply) s ->
       List.length (move_history s) = List.length (evals s)).
Proof.
  intros Hlock.
  specialize (Hlock (session_after Demo.idle Demo.healthy fresh_session)
                (reachable_rerun _ _ reachable_fresh)).
  vm_compute in Hlock. discriminate Hlock.
Qed.

Lemma play_move_exception_witness :
  let w := Demo.world [Demo.crash "engine died"] fresh_session in
  play_move_body "e2e4" w =
    (inl "engine died", Demo.world [] (set_board (push Board_new "e2e4") fresh_session)) /\
  move_history (session_state (snd (play_move "e2e4" w))) = [] /\
  board (session_state (snd (play_move "e2e4" w))) = push Board_new "e2e4".
Proof.
  cbv zeta.
  assert (Hbody : play_move_body "e2e4" (Demo.world [Demo.crash "engine died"] fresh_session) =
                    (inl "engine died",
                     Demo.world [] (set_board (push Board_new "e2e4") fresh_session)))
    by reflexivity.
  split; [exact Hbody|].
  destruct (play_move_exception _ _ Hbody) as (_ & _ & _ & Hmh & _ & _ & Hpush).
  split; [exact Hmh | exact (proj2 (Hpush "e2e4" eq_refl))].
Defined.

(** An engine failure during the analysis leaves the submitted move on the
    board: the session is not what it was before the submission. *)
Lemma play_move_exception_counterexample :
  ~ (forall user_move (w : World string (list Demo.Reply)) e w',
       play_move_body user_move w = (inl e, w') ->
       session_state (snd (play_move user_move w)) = session_state w).
Proof.
  intros Hsame.
  specialize (Hsame "e2e4" (Demo.world [Demo.crash "engine died"] fresh_session)
                _ _ eq_refl).
  vm_compute in Hsame. discriminate Hsame.
Qed.

Lemma move_quality_buckets_witness :
  type_ (mkEval cp 40) = type_ (mkEval cp 10) /\
  30 = Z.abs (value (mkEval cp 40) - value (mkEval cp 10)) /\
  move_quality (mkEval cp 40) (mkEval cp 10) = "Good 👍".
Proof.
  destruct (move_quality_buckets (mkEval cp 40) (mkEval cp 10) eq_refl eq_refl)
    as (_ & _ & _ & _ & _ & _ & Hgood & _).
  split; [reflexivity|]. split; [reflexivity|].
  exact (Hgood eq_refl).
Defined.

Lemma move_quality_unclear_witness :
  type_ (mkEval cp 500) <> type_ (mkEval mate 2) /\
  move_quality (mkEval cp 500) (mkEval mate 2) = "Unclear ❓".
Proof.
  assert (Hkinds : type_ (mkEval cp 500) <> type_ (mkEval mate 2))
    by (simpl; discriminate).
  split; [exact Hkinds | exact (move_quality_unclear _ _ Hkinds)].
Defined.

Lemma play_move_illegal_witness :
  let w := Demo.world Demo.healthy fresh_session in
  from_uci (strip "e2e5") = inr "e2e5" /\
  legal_moves (board (session_state w)) "e2e5" = false /\
  play_move "e2e5" w =
    (inr tt, mkWorld Demo.healthy fresh_session [st_error "Illegal move."]) /\
  List.length (move_history (session_state (snd (play_move "e2e5" w)))) = 0%nat.
Proof.
  cbv zeta.
  pose proof (play_move_illegal "e2e5" (Demo.world Demo.healthy fresh_session)
                (move := "e2e5") eq_refl eq_refl) as Hrun.
  split; [reflexivity|]. split; [reflexivity|]. split; [exact Hrun|].
  rewrite Hrun. reflexivity.
Defined.

Lemma undo_gated_on_move_stack_witness :
  let w := Demo.world Demo.healthy Demo.after_e2e4 in
  let w0 := Demo.world Demo.healthy fresh_session in
  move_stack (board Demo.after_e2e4) = [] ++ ["e2e4"] /\
  move_stack (board Demo.after_e2e4) <> [] /\
  reachable (E := list Demo.Reply) Demo.after_e2e4 /\
  move_history Demo.after_e2e4 <> [] /\
  move_stack (board (session_state w0)) = [] /\
  move_stack (board (session_state (snd (undo w)))) = [] /\
  move_history (session_state (snd (undo w))) = [] /\
  evals (session_state (snd (undo w))) = [25] /\
  snd (undo w0) = w0.
Proof.
  cbv zeta.
  assert (Hstack : move_stack (board Demo.after_e2e4) <> []) by (vm_compute; discriminate).
  assert (Hreach : reachable (E := list Demo.Reply) Demo.after_e2e4)
    by (apply reachable_run_all; constructor).
  assert (Hrows : move_history Demo.after_e2e4 <> []) by (vm_compute; discriminate).
  destruct (undo_gated_on_move_stack (Demo.world Demo.healthy Demo.after_e2e4))
    as (_ & _ & Hpop & Hinverse & Hboard).
  destruct (undo_gated_on_move_stack (Demo.world Demo.healthy fresh_session))
    as (_ & Hnoop & _).
  destruct (Hpop Hstack) as (Hb & He & Hm).
  pose proof (Hboard Hreach Hrows) as Hnonempty.
  destruct (Hinverse [] "e2e4" [25] 25
              [] (mkRow "e2e4" (Some "e7e5") "Excellent ✅" 25)
              eq_refl eq_refl eq_refl) as (Hb' & He' & Hm').
  split; [reflexivity|]. split; [exact Hstack|]. split; [exact Hreach|].
  split; [exact Hrows|]. split; [reflexivity|]. split; [exact Hb'|].
  split; [exact Hm'|]. split; [exact He'|].
  exact (Hnoop eq_refl).
Defined.

(** After an engine failure during the analysis the history is empty while
    the board holds the move: Undo then takes the move back and drops a
    sample, so it is not a no-op on an empty history. *)
Lemma undo_empty_history_counterexample :
  reachable (E := list Demo.Reply) Demo.after_failed_analysis /\
  move_history Demo.after_failed_analysis = [] /\
  session_state (snd (undo (Demo.world Demo.healthy Demo.after_failed_analysis)))
    <> Demo.after_failed_analysis /\
  session_after (Demo.press Undo "") Demo.healthy Demo.after_failed_analysis
    <> Demo.after_failed_analysis.
Proof.
  repeat apply conj.
  - apply reachable_rerun, reachable_fresh.
  - reflexivity.
  - vm_compute. discriminate.
  - vm_compute. discriminate.
Qed.

Lemma play_move_e2e4_witness :
  let w := Demo.world Demo.healthy fresh_session in
  board (session_state w) = Board_new /\
  move_history (session_state w) = [] /\
  from_uci "e2e4" = inr "e2e4" /\
  legal_moves Board_new "e2e4" = true /\
  fst (play_move "e2e4" w) = inr tt /\
  move_history (session_state (snd (play_move "e2e4" w))) =
    [mkRow "e2e4" (Some "e7e5") "Excellent ✅" 25] /\
  List.length (move_history (session_state (snd (play_move "e2e4" w)))) = 1%nat.
Proof.
  cbv zeta.
  destruct (play_move_e2e4 (rules := Demo.two_plies) (sf := Demo.replay)
              (Demo.world Demo.healthy fresh_session)
              (move := "e2e4") (played_eval := mkEval cp 25)
              (best_move := Some "e7e5") (best_eval := mkEval cp 25)
              (e1 := []) (e2 := []) (e3 := []) (e4 := []) (e5 := []) (e6 := [])
              eq_refl eq_refl eq_refl eq_refl eq_refl eq_refl eq_refl eq_refl
              eq_refl eq_refl)
    as (Hfst & _ & _ & Hrows & Hlen).
  split; [reflexivity|]. split; [reflexivity|]. split; [reflexivity|].
  split; [reflexivity|]. split; [exact Hfst|]. split; [exact Hrows | exact Hlen].
Defined.

Lemma eval_bar_sample_witness :
  let w := Demo.world [Demo.default_reply; Demo.answer (mkEval mate 3) None] fresh_session in
  is_game_over (board (session_state w)) = false /\
  set_fen_position (fen (board (session_state w))) (stockfish w) =
    (inr tt, [Demo.answer (mkEval mate 3) None]) /\
  get_evaluation [Demo.answer (mkEval mate 3) None] = (inr (mkEval mate 3), []) /\
  evals (session_state (snd (eval_bar w))) = [1000].
Proof.
  cbv zeta.
  destruct (eval_bar_sample (rules := Demo.two_plies) (sf := Demo.replay)
              (Demo.world [Demo.default_reply; Demo.answer (mkEval mate 3) None]
                 fresh_session)
              (eval_data := mkEval mate 3)
              (e1 := [Demo.answer (mkEval mate 3) None]) (e2 := [])
              eq_refl eq_refl eq_refl)
    as (_ & Hmate & _).
  split; [reflexivity|]. split; [reflexivity|]. split; [reflexivity|].
  apply Hmate; [reflexivity | simpl; lia].
Defined.

(** * Further properties of the script *)

(** ** The evaluation bar and the labels *)

(** X1. Whatever score it is given, the green bar stays inside the axis
    range 0..2000 set at line 44. *)
Theorem draw_eval_bar_within_axis (score_cp : Z) :
  0 <= draw_eval_bar score_cp <= 2000.
Proof. unfold draw_eval_bar. lia. Qed.

(** X2. The sample taken from a mate evaluation draws a full bar (2000)
    when the value is positive and an empty bar (0) otherwise; a centipawn
    sample is stored as it is, also beyond 1000 in size, and only the bar
    clamps it. *)
Theorem eval_bar_of_sample (eval_data : Evaluation) :
  (type_ eval_data = mate -> value eval_data > 0 ->
   draw_eval_bar (eval_score eval_data) = 2000) /\
  (type_ eval_data = mate -> value eval_data <= 0 ->
   draw_eval_bar (eval_score eval_data) = 0) /\
  (type_ eval_data = cp ->
   eval_score eval_data = value eval_data /\
   (value eval_data >= 1000 -> draw_eval_bar (eval_score eval_data) = 2000) /\
   (value eval_data <= -1000 -> draw_eval_bar (eval_score eval_data) = 0) /\
   (-1000 <= value eval_data <= 1000 ->
    draw_eval_bar (eval_score eval_data) = 1000 + value eval_data)).
Proof.
  unfold eval_score. repeat apply conj.
  - intros -> Hpos. cbn [EvalType_eqb].
    destruct (Z.gtb_spec (value eval_data) 0); [reflexivity | lia].
  - intros -> Hneg. cbn [EvalType_eqb].
    destruct (Z.gtb_spec (value eval_data) 0); [lia | reflexivity].
  - intros ->. cbn [EvalType_eqb]. unfold draw_eval_bar.
    repeat apply conj; intros; lia.
Qed.

(** X3. The label does not depend on the order of the two evaluations. *)
Theorem move_quality_symmetric (score1 score2 : Evaluation) :
  move_quality score1 score2 = move_quality score2 score1.
Proof.
  unfold move_quality.
  replace (value score2 - value score1)
    with (- (value score1 - value score2)) by lia.
  rewrite Z.abs_opp.
  destruct (type_ score1), (type_ score2); reflexivity.
Qed.

Lemma move_quality_label score1 score2 :
  In (move_quality score1 score2) quality_labels.
Proof.
  unfold move_quality, quality_labels.
  repeat match goal with
    | |- context [if ?c then _ else _] => destruct c
    end; simpl; tauto.
Qed.

Lemma app_one_neq {A : Type} (l : list A) (x : A) : l ++ [x] <> l.
Proof.
  intros Heq. apply (f_equal (@List.length A)) in Heq.
  rewrite length_app in Heq. simpl in Heq. lia.
Qed.

(** ** Handlers and reruns in detail *)

Section MoreFacts.

Context {Move : Type} {rules : Chess Move}.
Context {E : Type} {sf : Stockfish E}.

Implicit Types (w : World Move E) (s : Session Move).

(** Play Move returns normally and ends in one of three ways: nothing but
    an error message; the move pushed and an error message; the move
    pushed, recorded and drawn. *)
Lemma play_move_outcome user_move w :
  let s := session_state w in
  let out := play_move user_move w in
  let s' := session_state (snd out) in
  fst out = inr tt /\
  ((s' = s /\ stockfish (snd out) = stockfish w /\
    exists msg, page (snd out) = page w ++ [st_error msg])
   \/
   (exists move msg,
       from_uci (strip user_move) = inr move /\
       legal_moves (board s) move = true /\
       (exists e, fst (play_move_body user_move w) = inl e) /\
       s' = set_board (push (board s) move) s /\
       page (snd out) = page w ++ [st_error msg])
   \/
   (exists move played_eval best_move best_eval,
       from_uci (strip user_move) = inr move /\
       legal_moves (board s) move = true /\
       s' = mkSession (push (board s) move) (evals s)
              (move_history s ++
                 [mkRow user_move best_move
                    (move_quality played_eval best_eval) (value played_eval)])
              (summary_of
                 (mkLastData user_move best_move
                    (move_quality played_eval best_eval) played_eval)) /\
       page (snd out) =
         page w ++ [st_board (push (board s) move) (peek (push (board s) move))])).
Proof.
  cbv zeta. split; [apply play_move_returns|].
  rewrite play_move_unfold.
  destruct (play_move_body_cases user_move w)
    as [(e & _ & Hout) | [(move & _ & _ & Hout)
       | [(move & e & Hparse & Hlegal & Hfst & Hs & Hpage)
       | (move & pe & bm & be & Hparse & Hlegal & Hfst & Hs & Hpage)]]];
    cbv zeta in *.
  - rewrite Hout. simpl. left. repeat apply conj; eauto.
  - rewrite Hout. simpl. left. repeat apply conj; eauto.
  - right. left.
    destruct (play_move_body user_move w) as [[e'|[]] w']; simpl in *;
      try discriminate.
    exists move. eexists. repeat apply conj; eauto.
    rewrite Hpage. reflexivity.
  - right. right.
    destruct (play_move_body user_move w) as [[e'|[]] w']; simpl in *;
      try discriminate.
    exists move, pe, bm, be. repeat apply conj; auto.
Qed.

(** No button handler lets an exception escape. *)
Lemma buttons_returns r w : fst (buttons r w) = inr tt.
Proof.
  unfold buttons. destruct (clicked r) as [[| |]|].
  - apply play_move_returns.
  - rewrite undo_run. reflexivity.
  - reflexivity.
  - reflexivity.
Qed.

(** A rerun either stops with an exception before the buttons, the
    session untouched, or completes after the buttons ran on the session
    the eval bar left. *)
Lemma rerun_cases r e s :
  (exists x, fst (rerun r e s) = inl x /\ session_after r e s = s)
  \/
  (fst (rerun r e s) = inr tt /\
   exists w1,
     ((is_game_over (board s) = true /\ session_state w1 = s) \/
      (is_game_over (board s) = false /\
       exists x, session_state w1 = set_evals (evals s ++ [x]) s)) /\
     session_after r e s = session_state (snd (buttons r w1))).
Proof.
  unfold session_after, rerun. rewrite script_unfold. simpl.
  destruct (set_skill_level 15 e) as [[x|[]] e0]; simpl.
  { left. eauto. }
  pose proof (eval_bar_cases (mkWorld e0 s [])) as Hbar. simpl in Hbar.
  destruct (eval_bar (mkWorld e0 s [])) as [[x|[]] w1]; simpl in Hbar.
  - left. exists x. split; [reflexivity|].
    destruct Hbar as [(_ & Habs & _) | [(_ & _ & Hs) | (_ & Habs & _)]];
      try discriminate. exact Hs.
  - right. split; [apply buttons_returns|].
    eexists. split; [|reflexivity]. simpl.
    destruct Hbar as [(Hover & _ & Hs) | [(_ & (x & Habs) & _) | (Hover & _ & x & Hs)]];
      try discriminate; eauto.
Qed.

(** With an engine that always answers, the [try] block completes for
    every legal move. *)
Lemma play_move_body_answers user_move w move :
  analysis_never_raises ->
  from_uci (strip user_move) = inr move ->
  legal_moves (board (session_state w)) move = true ->
  fst (play_move_body user_move w) = inr tt.
Proof.
  intros (Hfen & Hev & Hbest & Hmake) Hparse Hlegal.
  unfold play_move_body, bind, gets, modify, emit, ret, lift, engine.
  rewrite Hparse. cbv beta iota. rewrite Hlegal.
  cbn [session_state stockfish board set_board page].
  repeat match goal with
    | |- context [set_fen_position ?f ?e] =>
        destruct (Hfen f e) as [? ->];
        cbn [session_state stockfish board set_board page]
    | |- context [get_evaluation ?e] =>
        destruct (Hev e) as (? & ? & ->);
        cbn [session_state stockfish board set_board page]
    | |- context [get_best_move ?e] =>
        destruct (Hbest e) as (? & ? & ->);
        cbn [session_state stockfish board set_board page]
    | |- context [make_moves_from_current_position ?l ?e] =>
        destruct (Hmake l e) as [? ->];
        cbn [session_state stockfish board set_board page]
    end.
  reflexivity.
Qed.

(** Proof rule for properties of every session that reruns can produce:
    it is enough to check the new session and the effect of a sample, of
    a move pushed without being recorded (which needs an engine failure),
    of a recorded move, of an undo and of a reset. *)
Lemma session_invariant (P : Session Move -> Prop) :
  P fresh_session ->
  (forall s x, P s -> P (set_evals (evals s ++ [x]) s)) ->
  (forall s move,
      P s -> legal_moves (board s) move = true -> ~ analysis_never_raises ->
      P (set_board (push (board s) move) s)) ->
  (forall s move user_move best_move played_eval best_eval,
      P s -> legal_moves (board s) move = true ->
      P (mkSession (push (board s) move) (evals s)
           (move_history s ++
              [mkRow user_move best_move
                 (move_quality played_eval best_eval) (value played_eval)])
           (summary_of
              (mkLastData user_move best_move
                 (move_quality played_eval best_eval) played_eval)))) ->
  (forall s,
      P s -> move_stack (board s) <> [] ->
      P (mkSession (mkBoard (removelast (move_stack (board s))))
           (removelast (evals s)) (removelast (move_history s)) (last_data s))) ->
  P (mkSession Board_new [] [] summary_empty) ->
  forall s, reachable s -> P s.
Proof.
  intros Hfresh Hsample Hpushed Hplayed Hundone Hreset s Hreach.
  induction Hreach as [|r e s _ IH]; [exact Hfresh|].
  destruct (rerun_cases r e s) as [(x & _ & ->) | (_ & w1 & Hw1 & ->)];
    [exact IH|].
  assert (P1 : P (session_state w1)).
  { destruct Hw1 as [(_ & ->) | (_ & x & ->)]; [exact IH | apply Hsample, IH]. }
  clear Hw1 IH. unfold buttons.
  destruct (clicked r) as [[| |]|].
  - destruct (play_move_outcome (uci_input r) w1)
      as (_ & [(Hs & _) | [(move & msg & Hparse & Hlegal & (x & Hraised) & Hs & _)
                          | (move & pe & bm & be & _ & Hlegal & Hs & _)]]);
      rewrite Hs.
    + exact P1.
    + apply Hpushed; [exact P1 | exact Hlegal |].
      intros Hnever.
      rewrite (play_move_body_answers (uci_input r) w1 Hnever Hparse Hlegal) in Hraised.
      discriminate Hraised.
    + apply Hplayed; [exact P1 | exact Hlegal].
  - rewrite undo_run. simpl.
    destruct (nonempty (move_stack (board (session_state w1)))) eqn:Hstack;
      [|exact P1].
    apply Hundone; [exact P1 | apply nonempty_true, Hstack].
  - rewrite reset_run. exact Hreset.
  - exact P1.
Qed.

Lemma Forall_removelast {A : Type} (Q : A -> Prop) (l : list A) :
  Forall Q l -> Forall Q (removelast l).
Proof.
  induction 1 as [|a l Ha Hl IH]; [constructor|].
  destruct l as [|b l]; [constructor|].
  change (removelast (a :: b :: l)) with (a :: removelast (b :: l)).
  constructor; assumption.
Qed.

Lemma board_eta (b : Board Move) : mkBoard (move_stack b) = b.
Proof. destruct b. reflexivity. Qed.

Lemma legal_from_app (b : Board Move) l m :
  legal_from b l ->
  legal_moves (mkBoard (move_stack b ++ l)) m = true ->
  legal_from b (l ++ [m]).
Proof.
  revert b. induction l as [|a l IH]; intros b Hl Hm; simpl in *.
  - rewrite app_nil_r, board_eta in Hm. split; [exact Hm | exact I].
  - destruct Hl as [Ha Hl]. split; [exact Ha|].
    apply IH; [exact Hl|]. simpl. rewrite <- app_assoc. exact Hm.
Qed.

Lemma legal_from_removelast (b : Board Move) l :
  legal_from b l -> legal_from b (removelast l).
Proof.
  revert b. induction l as [|a l IH]; intros b Hl; [exact I|].
  destruct l as [|c l]; [exact I|].
  change (removelast (a :: c :: l)) with (a :: removelast (c :: l)).
  destruct Hl as [Ha Hl]. split; [exact Ha | apply IH, Hl].
Qed.


End MoreFacts.

(** ** Invariants of the sessions that reruns produce *)

Section MoreInvariants.

Context {Move : Type} {rules : Chess Move}.
Context {E : Type} {sf : Stockfish E}.

Implicit Types (w : World Move E) (s : Session Move).

(** X4. In every session that reruns produce, each row of the move
    history carries one of the six labels of [move_quality], and so does a
    stored summary. *)
Theorem history_labels s :
  reachable s ->
  Forall (fun row => In (row_move_quality row) quality_labels) (move_history s) /\
  (forall d, last_data s = summary_of d -> In (ld_quality d) quality_labels).
Proof.
  revert s.
  apply (session_invariant
           (fun s =>
              Forall (fun row => In (row_move_quality row) quality_labels)
                (move_history s) /\
              (forall d, last_data s = summary_of d ->
                         In (ld_quality d) quality_labels)));
    simpl.
  - split; [constructor | discriminate].
  - intros s x H. exact H.
  - intros s move H _ _. exact H.
  - intros s move um bm pe be [Hrows _] _. split.
    + apply Forall_app. split; [exact Hrows|].
      constructor; [apply move_quality_label | constructor].
    + intros d Hd. injection Hd as <-. apply move_quality_label.
  - intros s [Hrows Hsum] _. split; [apply Forall_removelast, Hrows | exact Hsum].
  - split; [constructor | discriminate].
Qed.

(** X5. The board of every session that reruns produce holds a legal line
    of play: each move on the move stack was legal in the position reached
    by the moves before it. *)
Theorem board_holds_legal_line s :
  reachable s -> legal_line (board s).
Proof.
  revert s. unfold legal_line.
  apply (session_invariant (fun s => legal_from Board_new (move_stack (board s))));
    simpl.
  - exact I.
  - intros s x H. exact H.
  - intros s move H Hlegal _. apply legal_from_app; [exact H|].
    simpl. rewrite board_eta. exact Hlegal.
  - intros s move um bm pe be H Hlegal. apply legal_from_app; [exact H|].
    simpl. rewrite board_eta. exact Hlegal.
  - intros s H _. apply legal_from_removelast, H.
  - exact I.
Qed.

(** X6. Whenever the move history of a session that reruns produce is
    not empty, a summary is stored: the page never shows the history table
    next to the "No data yet." placeholder of the summary. *)
Theorem history_implies_summary s :
  reachable s ->
  move_history s <> [] ->
  (exists d, last_data s = summary_of d) /\
  history_table (move_history s) = [st_table (move_history s)] /\
  summary_cards (last_data s) <> [st_write "No data yet."].
Proof.
  intros Hreach Hrows.
  assert (Hsum : exists d, last_data s = summary_of d).
  { revert s Hreach Hrows.
    apply (session_invariant
             (fun s => move_history s <> [] -> exists d, last_data s = summary_of d));
      simpl.
    - congruence.
    - intros s x H. exact H.
    - intros s move H _ _. exact H.
    - intros; eauto.
    - intros s H _ Hrows. apply H. intros Hnil. rewrite Hnil in Hrows.
      apply Hrows. reflexivity.
    - congruence. }
  repeat apply conj.
  - exact Hsum.
  - destruct (move_history s); [congruence | reflexivity].
  - destruct Hsum as [d ->]. simpl. discriminate.
Qed.


End MoreInvariants.

(** ** White space around the move text *)

Lemma list_ascii_of_string_app (a b : string) :
  list_ascii_of_string (a ++ b)%string
  = list_ascii_of_string a ++ list_ascii_of_string b.
Proof. induction a as [|c a IH]; simpl; [reflexivity | rewrite IH; reflexivity]. Qed.

Lemma lstrip_chars_blank (p l : list ascii) :
  forallb isspace p = true -> lstrip_chars (p ++ l) = lstrip_chars l.
Proof.
  induction p as [|c p IH]; simpl; [reflexivity|].
  intros Hp. apply andb_prop in Hp as [Hc Hp]. rewrite Hc. apply IH, Hp.
Qed.

Lemma lstrip_chars_app_blank (l q : list ascii) :
  forallb isspace q = true ->
  lstrip_chars (l ++ q) =
    match lstrip_chars l with
    | [] => []
    | _ :: _ => lstrip_chars l ++ q
    end.
Proof.
  intros Hq. induction l as [|c l IH]; simpl.
  - rewrite <- (app_nil_r q). rewrite lstrip_chars_blank by exact Hq. reflexivity.
  - destruct (isspace c); [exact IH | reflexivity].
Qed.

Lemma forallb_rev {A : Type} (f : A -> bool) (l : list A) :
  forallb f l = true -> forallb f (rev l) = true.
Proof.
  rewrite !forallb_forall. intros H x Hx. apply H, in_rev, Hx.
Qed.

(** [strip] does not see white space added in front or behind. *)
Lemma strip_padding (before text after : string) :
  blank before -> blank after ->
  strip (before ++ text ++ after) = strip text.
Proof.
  unfold blank, strip. intros Hb Ha.
  rewrite !list_ascii_of_string_app.
  rewrite lstrip_chars_blank by exact Hb.
  rewrite lstrip_chars_app_blank by exact Ha.
  destruct (lstrip_chars (list_ascii_of_string text)) as [|c l]; [reflexivity|].
  rewrite rev_app_distr.
  rewrite lstrip_chars_blank by (apply forallb_rev, Ha).
  reflexivity.
Qed.

Section MoreHandlers.

Context {Move : Type} {rules : Chess Move}.
Context {E : Type} {sf : Stockfish E}.

Implicit Types (w : World Move E) (s : Session Move).

(** Two move texts with the same stripped form are handled alike, up to
    the text that is recorded. *)
Lemma play_move_same_parse (text1 text2 : string) w :
  strip text1 = strip text2 ->
  let out1 := play_move text1 w in
  let out2 := play_move text2 w in
  fst out1 = fst out2 /\
  stockfish (snd out1) = stockfish (snd out2) /\
  page (snd out1) = page (snd out2) /\
  board (session_state (snd out1)) = board (session_state (snd out2)) /\
  evals (session_state (snd out1)) = evals (session_state (snd out2)) /\
  map row_analysis (move_history (session_state (snd out1)))
  = map row_analysis (move_history (session_state (snd out2))).
Proof.
  intros Heq. cbv zeta.
  unfold play_move, try_except, play_move_body, bind, gets, modify, emit, ret,
    lift, engine.
  rewrite Heq.
  destruct (from_uci (strip text2)) as [e|move]; simpl; [repeat split|].
  destruct (legal_moves (board (session_state w)) move); simpl; [|repeat split].
  destruct (set_fen_position _ (stockfish w)) as [[e|[]] e1]; simpl; [repeat split|].
  destruct (get_evaluation e1) as [[e|played_eval] e2]; simpl; [repeat split|].
  destruct (get_best_move e2) as [[e|best_move] e3]; simpl; [repeat split|].
  destruct (set_fen_position _ e3) as [[e|[]] e4]; simpl; [repeat split|].
  destruct (make_moves_from_current_position _ e4) as [[e|[]] e5]; simpl;
    [repeat split|].
  destruct (get_evaluation e5) as [[e|best_eval] e6]; simpl; [repeat split|].
  repeat split. rewrite !map_app. reflexivity.
Qed.

(** X8. When Play Move extends the history, the new row and the stored
    summary describe the same move: the text as typed, the engine's best
    move, the label, and as the row's Eval the value of the summary's
    evaluation; the move is legal and on the board, and no sample is
    added. *)
Theorem play_move_records_agree user_move w :
  let s := session_state w in
  let s' := session_state (snd (play_move user_move w)) in
  move_history s' <> move_history s ->
  exists move row d,
    from_uci (strip user_move) = inr move /\
    legal_moves (board s) move = true /\
    board s' = push (board s) move /\
    evals s' = evals s /\
    move_history s' = move_history s ++ [row] /\
    last_data s' = summary_of d /\
    row_your_move row = user_move /\
    ld_user_move d = user_move /\
    row_best_move row = ld_best_move d /\
    row_move_quality row = ld_quality d /\
    row_eval row = value (ld_eval d).
Proof.
  cbv zeta. intros Hgrew.
  destruct (play_move_outcome user_move w)
    as (_ & [(Hs & _) | [(move & msg & _ & _ & _ & Hs & _)
                        | (move & pe & bm & be & Hparse & Hlegal & Hs & _)]]);
    rewrite Hs in *; simpl in *; try congruence.
  exists move. do 2 eexists. repeat apply conj; try reflexivity; assumption.
Qed.

(** X9. Play Move never raises and adds exactly one element to the page;
    that element is an error message exactly when the history was not
    extended. *)
Theorem play_move_reports user_move w :
  let out := play_move user_move w in
  fst out = inr tt /\
  exists x,
    page (snd out) = page w ++ [x] /\
    ((exists msg, x = st_error msg) <->
     move_history (session_state (snd out)) = move_history (session_state w)).
Proof.
  cbv zeta.
  destruct (play_move_outcome user_move w)
    as (Hfst & [(Hs & _ & msg & Hpage) | [(move & msg & _ & _ & _ & Hs & Hpage)
                        | (move & pe & bm & be & _ & _ & Hs & Hpage)]]);
    (split; [exact Hfst|]); rewrite Hs, Hpage; simpl.
  - exists (st_error msg). split; [reflexivity|]. split; eauto.
  - exists (st_error msg). split; [reflexivity|]. split; eauto.
  - eexists. split; [reflexivity|]. split.
    + intros [msg Habs]. discriminate Habs.
    + intros Habs. apply app_one_neq in Habs. contradiction.
Qed.

(** X10. White space typed around a move does not change what Play Move
    does: the result, the engine, the page, the board and the samples are
    the same as for the bare text, and so is the history up to the text it
    records. *)
Theorem play_move_ignores_padding (before text after : string) w :
  blank before -> blank after ->
  let out1 := play_move (before ++ text ++ after) w in
  let out2 := play_move text w in
  fst out1 = fst out2 /\
  stockfish (snd out1) = stockfish (snd out2) /\
  page (snd out1) = page (snd out2) /\
  board (session_state (snd out1)) = board (session_state (snd out2)) /\
  evals (session_state (snd out1)) = evals (session_state (snd out2)) /\
  map row_analysis (move_history (session_state (snd out1)))
  = map row_analysis (move_history (session_state (snd out2))).
Proof.
  intros Hb Ha. apply play_move_same_parse, strip_padding; assumption.
Qed.

(** X11. An exception that ends a rerun comes from configuring the engine
    (line 15) or from the eval bar of a game that is not over; the session
    is then exactly what it was, whatever button was pressed, and nothing
    below the buttons is shown. *)
Theorem rerun_uncaught_exception r e s x :
  fst (rerun r e s) = inl x ->
  session_after r e s = s /\
  page_bottom r e s = None /\
  ((exists e0, set_skill_level 15 e = (inl x, e0)) \/
   is_game_over (board s) = false).
Proof.
  intros Hraised. repeat apply conj.
  - destruct (rerun_cases r e s) as [(x' & _ & Hs) | (Hfst & _)];
      [exact Hs | congruence].
  - unfold page_bottom. rewrite Hraised. reflexivity.
  - unfold rerun in Hraised. rewrite script_unfold in Hraised. simpl in Hraised.
    destruct (set_skill_level 15 e) as [[x0|[]] e0]; simpl in Hraised.
    + left. exists e0. injection Hraised as ->. reflexivity.
    + right.
      pose proof (eval_bar_cases (mkWorld e0 s [])) as Hbar. simpl in Hbar.
      destruct (eval_bar (mkWorld e0 s [])) as [[x1|[]] w1]; simpl in *.
      * destruct Hbar as [(_ & Habs & _) | [(Hover & _) | (Hover & _)]];
          [discriminate Habs | exact Hover | exact Hover].
      * rewrite buttons_returns in Hraised. discriminate Hraised.
Qed.

(** X12. A rerun in which Undo is pressed, on a board with moves: the last
    board move and the last history row go, the summary stays. While the
    game is not over the sample that goes is the one the eval bar of this
    very rerun added, so the samples end as they started; with the game
    over the last stored sample goes. *)
Theorem undo_rerun_samples text e s :
  fst (rerun (mkRequest text (Some Undo)) e s) = inr tt ->
  move_stack (board s) <> [] ->
  let s' := session_after (mkRequest text (Some Undo)) e s in
  move_stack (board s') = removelast (move_stack (board s)) /\
  move_history s' = removelast (move_history s) /\
  last_data s' = last_data s /\
  (is_game_over (board s) = false -> evals s' = evals s) /\
  (is_game_over (board s) = true -> evals s' = removelast (evals s)).
Proof.
  intros Hdone Hstack. cbv zeta.
  destruct (rerun_cases (mkRequest text (Some Undo)) e s)
    as [(x & Habs & _) | (_ & w1 & Hw1 & ->)]; [congruence|].
  unfold buttons. simpl. rewrite undo_run. simpl.
  apply nonempty_true in Hstack.
  destruct Hw1 as [(Hover & ->) | (Hover & x & ->)]; simpl; rewrite Hstack; simpl;
    repeat apply conj; try reflexivity; intros; try congruence.
  apply removelast_last.
Qed.

(** X13. A move that was played and recorded in one rerun and undone in
    the next: board and history are back to what they were, while the
    summary still shows the undone move and, the game not being over, the
    sample taken when the move was played stays. *)
Theorem play_then_undo user_move text e e' s :
  let s1 := session_after (mkRequest user_move (Some Play_Move)) e s in
  let s2 := session_after (mkRequest text (Some Undo)) e' s1 in
  move_history s1 <> move_history s ->
  fst (rerun (mkRequest text (Some Undo)) e' s1) = inr tt ->
  board s2 = board s /\
  move_history s2 = move_history s /\
  last_data s2 = last_data s1 /\
  (exists d, last_data s1 = summary_of d /\ ld_user_move d = user_move) /\
  (is_game_over (board s1) = false -> evals s2 = evals s1).
Proof.
  cbv zeta. intros Hgrew Hdone.
  assert (Hplay : exists move row d,
             session_after (mkRequest user_move (Some Play_Move)) e s
             = mkSession (push (board s) move)
                 (evals (session_after (mkRequest user_move (Some Play_Move)) e s))
                 (move_history s ++ [row]) (summary_of d) /\
             ld_user_move d = user_move).
  { destruct (rerun_cases (mkRequest user_move (Some Play_Move)) e s)
      as [(x & _ & Hs) | (_ & w1 & Hw1 & Hs)]; [congruence|].
    rewrite Hs in *. unfold buttons in *. simpl in *.
    assert (Hb : board (session_state w1) = board s)
      by (destruct Hw1 as [(_ & ->) | (_ & x & ->)]; reflexivity).
    assert (Hm : move_history (session_state w1) = move_history s)
      by (destruct Hw1 as [(_ & ->) | (_ & x & ->)]; reflexivity).
    destruct (play_move_outcome user_move w1)
      as (_ & [(Hs1 & _) | [(move & msg & _ & _ & _ & Hs1 & _)
                          | (move & pe & bm & be & _ & _ & Hs1 & _)]]);
      rewrite Hs1 in *; simpl in *; try congruence.
    exists move. do 2 eexists. rewrite Hb, Hm. split; reflexivity. }
  destruct Hplay as (move & row & d & Hs1 & Htext).
  set (s1 := session_after (mkRequest user_move (Some Play_Move)) e s) in *.
  destruct (rerun_cases (mkRequest text (Some Undo)) e' s1)
    as [(x & Habs & _) | (_ & w2 & Hw2 & ->)]; [congruence|].
  unfold buttons. simpl. rewrite undo_run. simpl.
  assert (Hstack : forall w2,
             board (session_state w2) = board s1 ->
             nonempty (move_stack (board (session_state w2))) = true).
  { intros w Hw. rewrite Hw, Hs1. simpl. destruct (move_stack (board s)); reflexivity. }
  assert (Hboard : mkBoard (removelast (move_stack (board s1))) = board s).
  { rewrite Hs1. simpl. rewrite removelast_last. apply board_eta. }
  assert (Hrows : removelast (move_history s1) = move_history s).
  { rewrite Hs1. simpl. apply removelast_last. }
  destruct Hw2 as [(Hover & Hw2) | (Hover & x & Hw2)];
    rewrite (Hstack w2) by (rewrite Hw2; reflexivity); rewrite Hw2; simpl;
    repeat apply conj; try assumption; try reflexivity.
  - exists d. rewrite Hs1. split; [reflexivity | exact Htext].
  - congruence.
  - exists d. rewrite Hs1. split; [reflexivity | exact Htext].
  - intros _. apply removelast_last.
Qed.

End MoreHandlers.

Section MoreReruns.

Context {Move : Type} {rules : Chess Move}.
Context {E : Type} {sf : Stockfish E}.

Implicit Types (w : World Move E) (s : Session Move).

(** X14. A rerun in which Reset is pressed and that runs to its end leaves
    the same session whatever came before, the sample its own eval bar
    took included in what is discarded, and shows the three placeholders
    below the buttons. *)
Theorem reset_rerun text e s :
  fst (rerun (mkRequest text (Some Reset)) e s) = inr tt ->
  session_after (mkRequest text (Some Reset)) e s
  = mkSession Board_new [] [] summary_empty /\
  page_bottom (mkRequest text (Some Reset)) e s
  = Some [st_write "No data yet."; st_write "No moves yet.";
          st_chart_info "No data yet."].
Proof.
  intros Hdone.
  assert (Hs : session_after (mkRequest text (Some Reset)) e s
               = mkSession Board_new [] [] summary_empty).
  { destruct (rerun_cases (mkRequest text (Some Reset)) e s)
      as [(x & Habs & _) | (_ & w1 & _ & ->)]; [congruence|].
    reflexivity. }
  split; [exact Hs|].
  unfold page_bottom. rewrite Hdone, Hs. reflexivity.
Qed.

(** X15. A rerun without a button pressed, as caused by editing the move
    field, leaves board, history and summary alone. It adds one sample
    when the game is not over and the rerun runs to its end, and no sample
    when the game is over or the rerun ends with an exception. *)
Theorem idle_rerun text e s :
  let s' := session_after (mkRequest text None) e s in
  board s' = board s /\
  move_history s' = move_history s /\
  last_data s' = last_data s /\
  (is_game_over (board s) = false ->
   fst (rerun (mkRequest text None) e s) = inr tt ->
   exists x, evals s' = evals s ++ [x]) /\
  (is_game_over (board s) = true -> evals s' = evals s) /\
  (forall x, fst (rerun (mkRequest text None) e s) = inl x -> evals s' = evals s).
Proof.
  cbv zeta.
  destruct (rerun_cases (mkRequest text None) e s)
    as [(x & Hfst & ->) | (Hfst & w1 & Hw1 & ->)].
  - repeat apply conj; try reflexivity. intros _ Habs. congruence.
  - unfold buttons. simpl.
    destruct Hw1 as [(Hover & ->) | (Hover & x & ->)]; simpl;
      repeat apply conj; try reflexivity; intros; try congruence; eauto.
Qed.

End MoreReruns.

(** ** The further properties on concrete runs *)

Lemma eval_bar_of_sample_witness :
  type_ (mkEval mate 3) = mate /\ value (mkEval mate 3) > 0 /\
  draw_eval_bar (eval_score (mkEval mate 3)) = 2000 /\
  type_ (mkEval cp (-1500)) = cp /\ value (mkEval cp (-1500)) <= -1000 /\
  eval_score (mkEval cp (-1500)) = -1500 /\
  draw_eval_bar (eval_score (mkEval cp (-1500))) = 0.
Proof.
  destruct (eval_bar_of_sample (mkEval mate 3)) as (Hmate & _ & _).
  destruct (eval_bar_of_sample (mkEval cp (-1500))) as (_ & _ & Hcp).
  destruct (Hcp eq_refl) as (Hraw & _ & Hlow & _).
  split; [reflexivity|]. split; [reflexivity|].
  split; [apply Hmate; [reflexivity | simpl; lia]|].
  split; [reflexivity|]. split; [simpl; lia|].
  split; [exact Hraw|]. apply Hlow. simpl. lia.
Defined.

Lemma history_labels_witness :
  reachable (E := list Demo.Reply) Demo.after_e2e4 /\
  Forall (fun row => In (row_move_quality row) quality_labels)
    (move_history Demo.after_e2e4).
Proof.
  assert (Hreach : reachable (E := list Demo.Reply) Demo.after_e2e4)
    by (apply reachable_run_all; constructor).
  split; [exact Hreach | exact (proj1 (history_labels Hreach))].
Defined.

Lemma board_holds_legal_line_witness :
  reachable (E := list Demo.Reply) Demo.after_e2e4 /\
  legal_line (board Demo.after_e2e4).
Proof.
  assert (Hreach : reachable (E := list Demo.Reply) Demo.after_e2e4)
    by (apply reachable_run_all; constructor).
  split; [exact Hreach | exact (board_holds_legal_line Hreach)].
Defined.

Lemma history_implies_summary_witness :
  reachable (E := list Demo.Reply) Demo.after_e2e4 /\
  move_history Demo.after_e2e4 <> [] /\
  exists d, last_data Demo.after_e2e4 = summary_of d.
Proof.
  assert (Hreach : reachable (E := list Demo.Reply) Demo.after_e2e4)
    by (apply reachable_run_all; constructor).
  assert (Hrows : move_history Demo.after_e2e4 <> []) by (vm_compute; discriminate).
  split; [exact Hreach|]. split; [exact Hrows|].
  exact (proj1 (history_implies_summary Hreach Hrows)).
Defined.


Lemma play_move_records_agree_witness :
  let w := Demo.world Demo.healthy fresh_session in
  move_history (session_state (snd (play_move "e2e4" w)))
    <> move_history (session_state w) /\
  exists move row d,
    board (session_state (snd (play_move "e2e4" w))) = push Board_new move /\
    row_your_move row = "e2e4" /\
    row_move_quality row = ld_quality d /\
    row_eval row = value (ld_eval d).
Proof.
  cbv zeta.
  assert (Hgrew : move_history
                    (session_state
                       (snd (play_move "e2e4" (Demo.world Demo.healthy fresh_session))))
                  <> move_history
                       (session_state (Demo.world Demo.healthy fresh_session)))
    by (vm_compute; discriminate).
  split; [exact Hgrew|].
  destruct (play_move_records_agree "e2e4" (Demo.world Demo.healthy fresh_session) Hgrew)
    as (move & row & d & _ & _ & Hboard & _ & _ & _ & Htext & _ & _ & Hlabel & Heval).
  exists move, row, d. repeat apply conj; assumption.
Defined.

Lemma play_move_ignores_padding_witness :
  let w := Demo.world Demo.healthy fresh_session in
  blank "  " /\ blank " " /\
  board (session_state (snd (play_move ("  " ++ "e2e4" ++ " ") w)))
  = board (session_state (snd (play_move "e2e4" w))).
Proof.
  cbv zeta.
  assert (Hb : blank "  ") by reflexivity.
  assert (Ha : blank " ") by reflexivity.
  split; [exact Hb|]. split; [exact Ha|].
  destruct (play_move_ignores_padding "e2e4"
              (Demo.world Demo.healthy fresh_session) Hb Ha)
    as (_ & _ & _ & Hboard & _).
  exact Hboard.
Defined.

Lemma rerun_uncaught_exception_witness :
  fst (rerun (Demo.press Reset "") [Demo.crash "no engine"] Demo.after_e2e4)
  = inl "no engine" /\
  session_after (Demo.press Reset "") [Demo.crash "no engine"] Demo.after_e2e4
  = Demo.after_e2e4.
Proof.
  assert (Hraised : fst (rerun (Demo.press Reset "") [Demo.crash "no engine"]
                           Demo.after_e2e4) = inl "no engine") by reflexivity.
  split; [exact Hraised | exact (proj1 (rerun_uncaught_exception _ _ _ Hraised))].
Defined.

Lemma undo_rerun_samples_witness :
  fst (rerun (Demo.press Undo "") Demo.healthy Demo.after_e2e4) = inr tt /\
  move_stack (board Demo.after_e2e4) <> [] /\
  is_game_over (board Demo.after_e2e4) = false /\
  evals (session_after (Demo.press Undo "") Demo.healthy Demo.after_e2e4)
  = evals Demo.after_e2e4 /\
  move_history (session_after (Demo.press Undo "") Demo.healthy Demo.after_e2e4)
  = removelast (move_history Demo.after_e2e4).
Proof.
  assert (Hdone : fst (rerun (Demo.press Undo "") Demo.healthy Demo.after_e2e4)
                  = inr tt) by reflexivity.
  assert (Hstack : move_stack (board Demo.after_e2e4) <> [])
    by (vm_compute; discriminate).
  destruct (undo_rerun_samples "" Demo.healthy Demo.after_e2e4 Hdone Hstack)
    as (_ & Hrows & _ & Hsamples & _).
  split; [exact Hdone|]. split; [exact Hstack|]. split; [reflexivity|].
  split; [exact (Hsamples eq_refl) | exact Hrows].
Defined.

Lemma play_then_undo_witness :
  let s : Session string := fresh_session in
  let s1 := session_after (Demo.press Play_Move "e2e4") Demo.healthy s in
  let s2 := session_after (Demo.press Undo "") Demo.healthy s1 in
  move_history s1 <> move_history s /\
  fst (rerun (Demo.press Undo "") Demo.healthy s1) = inr tt /\
  board s2 = board s /\ move_history s2 = move_history s /\
  last_data s2 = last_data s1.
Proof.
  cbv zeta.
  assert (Hgrew : move_history
                    (session_after (Demo.press Play_Move "e2e4") Demo.healthy
                       fresh_session)
                  <> move_history (fresh_session (Move := string)))
    by (vm_compute; discriminate).
  assert (Hdone : fst (rerun (Demo.press Undo "") Demo.healthy
                         (session_after (Demo.press Play_Move "e2e4") Demo.healthy
                            fresh_session)) = inr tt) by reflexivity.
  destruct (play_then_undo "e2e4" "" Demo.healthy Demo.healthy fresh_session
              Hgrew Hdone) as (Hboard & Hrows & Hsum & _).
  split; [exact Hgrew|]. split; [exact Hdone|]. split; [exact Hboard|].
  split; [exact Hrows | exact Hsum].
Defined.

Lemma reset_rerun_witness :
  fst (rerun (Demo.press Reset "") Demo.healthy Demo.after_e2e4) = inr tt /\
  session_after (Demo.press Reset "") Demo.healthy Demo.after_e2e4
  = mkSession Board_new [] [] summary_empty.
Proof.
  assert (Hdone : fst (rerun (Demo.press Reset "") Demo.healthy Demo.after_e2e4)
                  = inr tt) by reflexivity.
  split; [exact Hdone | exact (proj1 (reset_rerun "" Demo.healthy Demo.after_e2e4 Hdone))].
Defined.

Lemma idle_rerun_witness :
  let s : Session string := fresh_session in
  is_game_over (board s) = false /\
  fst (rerun (mkRequest "e2" None) Demo.healthy s) = inr tt /\
  exists x, evals (session_after (mkRequest "e2" None) Demo.healthy s) = evals s ++ [x].
Proof.
  cbv zeta.
  destruct (idle_rerun "e2" Demo.healthy (fresh_session (Move := string)))
    as (_ & _ & _ & Hsample & _).
  split; [reflexivity|]. split; [reflexivity|].
  exact (Hsample eq_refl eq_refl).
Defined.
